(** * MRKL routing chain: the action parser and the zero-shot router

    A shallow embedding of [langchain/routing_chains/mrkl/base.py]:
    the parser [get_action_and_input], the prompt pieces built by
    [ZeroShotRouter.from_llm_and_tools], and the two [MRKLChain]
    constructors.  Python [str] values are [string]s, Python lists are
    [list]s, and a Python call that can raise is a computation in the
    [result] monad below. *)

From Stdlib Require Import String Ascii List ZArith Lia Bool Permutation.
Import ListNotations.
Local Open Scope string_scope.

(** ** Python runtime: exceptions and the error monad *)

(** The exceptions the module can raise.  [ValueError] carries the message
    written in the source; [IndexError] and [TypeError] are raised by the
    interpreter itself (list indexing, keyword binding). *)
Inductive exn : Type :=
| ValueError (msg : string)
| IndexError
| TypeError.

Inductive result (A : Type) : Type :=
| Ok (a : A)
| Raise (e : exn).
Arguments Ok {A} a.
Arguments Raise {A} e.

Definition bind {A B : Type} (m : result A) (k : A -> result B) : result B :=
  match m with
  | Ok a => k a
  | Raise e => Raise e
  end.

Notation "x <- m ;; k" := (bind m (fun x => k))
  (at level 61, m at next level, right associativity).

(** ** Python runtime: [str] and [list] primitives used by the module *)

Definition LF : ascii := "010"%char.
Definition DQUOTE : ascii := "034"%char.

Definition chr (c : ascii) : string := String c EmptyString.

(** [s.split(sep)] for a one-character separator. *)
Fixpoint split (sep : ascii) (s : string) : list string :=
  match s with
  | EmptyString => [EmptyString]
  | String c s' =>
      if Ascii.eqb c sep then EmptyString :: split sep s'
      else match split sep s' with
           | [] => [chr c]
           | w :: ws => String c w :: ws
           end
  end.

(** Truthiness of a [str]: the empty string is falsy. *)
Definition truthy (p : string) : bool :=
  match p with
  | EmptyString => false
  | String _ _ => true
  end.

(** [s.startswith(p)]. *)
Definition startswith (s p : string) : bool := String.prefix p s.

(** [len(s)]. *)
Definition len (s : string) : nat := String.length s.

(** [s[n:]] for [0 <= n]; past the end it is the empty string. *)
Fixpoint slice_from (n : nat) (s : string) : string :=
  match n, s with
  | O, _ => s
  | S n', String _ s' => slice_from n' s'
  | S _, EmptyString => EmptyString
  end.

Fixpoint mem (c : ascii) (chars : string) : bool :=
  match chars with
  | EmptyString => false
  | String d chars' => Ascii.eqb c d || mem c chars'
  end.

(** [s.lstrip(chars)], [s.rstrip(chars)] and [s.strip(chars)]: every
    leading (trailing) character that belongs to [chars] is removed. *)
Fixpoint lstrip (chars s : string) : string :=
  match s with
  | EmptyString => EmptyString
  | String c s' => if mem c chars then lstrip chars s' else s
  end.

Fixpoint rstrip (chars s : string) : string :=
  match s with
  | EmptyString => EmptyString
  | String c s' =>
      match rstrip chars s' with
      | EmptyString => if mem c chars then EmptyString else chr c
      | r => String c r
      end
  end.

Definition strip (chars s : string) : string := rstrip chars (lstrip chars s).

(** [sep.join(l)]. *)
Fixpoint join (sep : string) (l : list string) : string :=
  match l with
  | [] => EmptyString
  | [x] => x
  | x :: xs => x ++ sep ++ join sep xs
  end.

(** [l[i]] with Python's negative indices; out of range raises
    [IndexError]. *)
Definition getitem {A : Type} (l : list A) (i : Z) : result A :=
  let n := Z.of_nat (length l) in
  let j := if (i <? 0)%Z then (i + n)%Z else i in
  if ((j <? 0) || (n <=? j))%Z then Raise IndexError
  else match nth_error l (Z.to_nat j) with
       | Some x => Ok x
       | None => Raise IndexError
       end.

(** ** The parser *)

Definition FINAL_ANSWER_ACTION : string := "Final Answer: ".

(** The two messages of the parser's [ValueError]s. *)
Definition no_action_input_msg : string :=
  "The last line does not have an action input, something has gone terribly wrong.".
Definition no_action_msg : string :=
  "The second to last line does not have an action, something has gone terribly wrong.".

(** [[p for p in llm_output.split(LF) if p]] *)
Definition nonempty_lines (llm_output : string) : list string :=
  filter truthy (split LF llm_output).

(** [get_action_and_input], statement by statement. *)
Definition get_action_and_input (llm_output : string) : result (string * string) :=
  let ps := nonempty_lines llm_output in
  last <- getitem ps (-1) ;;
  if startswith last "Final Answer" then
    last <- getitem ps (-1) ;;
    let directive := slice_from (len FINAL_ANSWER_ACTION) last in
    Ok ("Final Answer", directive)
  else
    last <- getitem ps (-1) ;;
    if negb (startswith last "Action Input: ") then
      Raise (ValueError no_action_input_msg)
    else
      prev <- getitem ps (-2) ;;
      if negb (startswith prev "Action: ") then
        Raise (ValueError no_action_msg)
      else
        prev <- getitem ps (-2) ;;
        let action := slice_from (len "Action: ") prev in
        last <- getitem ps (-1) ;;
        let action_input := slice_from (len "Action Input: ") last in
        Ok (action, strip (chr DQUOTE) (strip " " action_input)).

(** The parser's results in the vocabulary of the design: a directive is
    the returned pair, and the malformed-directive causes are the two
    [ValueError]s the parser raises. *)
Definition Action (toolName toolInput : string) : string * string :=
  (toolName, toolInput).
Definition Finish (output : string) : string * string :=
  ("Final Answer", output).
Definition MissingActionInputLine : exn := ValueError no_action_input_msg.
Definition MissingActionLine : exn := ValueError no_action_msg.

(** A failure that is one of the parser's own diagnostics. *)
Definition is_MalformedDirective (e : exn) : bool :=
  match e with
  | ValueError _ => true
  | IndexError | TypeError => false
  end.

(** First and last character of a [str], when it has one. *)
Definition first_char (s : string) : option ascii :=
  match s with
  | EmptyString => None
  | String c _ => Some c
  end.

Fixpoint last_char (s : string) : option ascii :=
  match s with
  | EmptyString => None
  | String c EmptyString => Some c
  | String _ s' => last_char s'
  end.

(** Helper to write test inputs: lines separated by the newline character. *)
Definition unlines (l : list string) : string := join (chr LF) l.

Example split_trailing :
  split LF (unlines ["a"; "b"; ""]) = ["a"; "b"; ""].
Proof. reflexivity. Qed.

Example parse_action_example :
  get_action_and_input
    (unlines ["I should search.";
              "Action: Search";
              "Action Input: " ++ chr DQUOTE ++ "capital of France" ++ chr DQUOTE])
  = Ok (Action "Search" "capital of France").
Proof. reflexivity. Qed.

Example parse_final_example :
  get_action_and_input (unlines ["I know now."; "Final Answer: Paris"])
  = Ok (Finish "Paris").
Proof. reflexivity. Qed.

(** ** Tools, the zero-shot router and the chain constructors *)

(** Modelled from the spec: the [Tool] record of
    [langchain.routing_chains.tools], which this module imports and builds
    with the keywords [name], [func] and [description]; [F] is the type of
    the callables. *)
Record Tool (F : Type) : Type := mkTool {
  name : string;
  func : F;
  description : string
}.
Arguments mkTool {F} _ _ _.
Arguments name {F} _.
Arguments func {F} _.
Arguments description {F} _.

Record ChainConfig (F : Type) : Type := mkChainConfig {
  action_name : string;
  action : F;
  action_description : string
}.
Arguments mkChainConfig {F} _ _ _.
Arguments action_name {F} _.
Arguments action {F} _.
Arguments action_description {F} _.

(** The f-string of line 66. *)
Definition tool_line {F : Type} (tool : Tool F) : string :=
  name tool ++ ": " ++ description tool.

(** The two locals of [from_llm_and_tools], lines 66 and 67. *)
Definition tool_strings {F : Type} (tools : list (Tool F)) : string :=
  join (chr LF) (map (fun tool => tool_line tool) tools).

Definition tool_names {F : Type} (tools : list (Tool F)) : string :=
  join ", " (map (fun tool => name tool) tools).

(** Following the spec's words: the catalog is one line [name: description]
    per tool, in registration order, the lines joined by newlines; the
    names are listed in registration order with a comma (and a space)
    between two of them. *)
Fixpoint renderCatalog {F : Type} (tools : list (Tool F)) : string :=
  match tools with
  | [] => EmptyString
  | t :: rest =>
      match rest with
      | [] => name t ++ ": " ++ description t
      | _ :: _ => name t ++ ": " ++ description t ++ chr LF ++ renderCatalog rest
      end
  end.

Fixpoint renderNames {F : Type} (tools : list (Tool F)) : string :=
  match tools with
  | [] => EmptyString
  | t :: rest =>
      match rest with
      | [] => name t
      | _ :: _ => name t ++ ", " ++ renderNames rest
      end
  end.

(** What this module imports from the rest of the package and only calls:
    the LLM and callable objects, the values of keyword arguments, the
    formatting of [BASE_TEMPLATE] with its two keywords, and the
    constructors of [PromptTemplate], [LLMChain], the router class and the
    chain class.  Each call may raise. *)
Class Collaborators : Type := {
  LLM : Type;
  Callable : Type;
  Value : Type;
  Prompt : Type;
  Chain : Type;
  Router : Type;
  Routing : Type;
  BASE_TEMPLATE_format : string -> string -> result string;
  PromptTemplate : string -> list string -> result Prompt;
  LLMChain : LLM -> Prompt -> result Chain;
  ZeroShotRouter : Chain -> result Router;
  MRKLChain : Router -> list (Tool Callable) -> list (string * Value)
              -> result Routing
}.

(** A call [f(..., **kwargs)] raises [TypeError] when [kwargs] holds a key
    that the call already binds. *)
Definition keyword_clash {V : Type} (bound : list string)
    (kwargs : list (string * V)) : bool :=
  existsb (fun kv => existsb (String.eqb (fst kv)) bound) kwargs.

(** [ZeroShotRouter.from_llm_and_tools(llm, tools)] *)
Definition from_llm_and_tools `{Collaborators} (llm : LLM)
    (tools : list (Tool Callable)) : result Router :=
  let tool_strings := tool_strings tools in
  let tool_names := tool_names tools in
  template <- BASE_TEMPLATE_format tool_strings tool_names ;;
  prompt <- PromptTemplate template ["input"] ;;
  llm_chain <- LLMChain llm prompt ;;
  ZeroShotRouter llm_chain.

(** The two properties of [ZeroShotRouter] and its
    [_extract_tool_and_input]; none of them reads [self]. *)
Definition observation_prefix : string := "Observation: ".

Definition router_prefix : string := "Thought:".

Definition _extract_tool_and_input (text : string) : result (string * string) :=
  get_action_and_input text.

(** [MRKLChain.from_tools_and_llm(tools, llm, **kwargs)]: the keywords are
    bound against the signature [(cls, tools, llm, **kwargs)], then the
    body runs; its last line calls the class with the keywords [router] and
    [tools] next to [**kwargs]. *)
Definition from_tools_and_llm `{Collaborators} (tools : list (Tool Callable))
    (llm : LLM) (kwargs : list (string * Value)) : result Routing :=
  if keyword_clash ["cls"; "tools"; "llm"] kwargs then Raise TypeError
  else
    router <- from_llm_and_tools llm tools ;;
    if keyword_clash ["router"; "tools"] kwargs then Raise TypeError
    else MRKLChain router tools kwargs.

(** [MRKLChain.from_chains(llm, chains, **kwargs)]: the keywords are bound
    against the signature [(cls, llm, chains, **kwargs)], then the body
    runs. *)
Definition from_chains `{Collaborators} (llm : LLM)
    (chains : list (ChainConfig Callable)) (kwargs : list (string * Value))
    : result Routing :=
  if keyword_clash ["cls"; "llm"; "chains"] kwargs then Raise TypeError
  else
    let tools :=
      map (fun c => mkTool (action_name c) (action c) (action_description c))
        chains in
    from_tools_and_llm tools llm kwargs.

(** The tool a chain configuration stands for. *)
Definition tool_of_chain {F : Type} (c : ChainConfig F) : Tool F :=
  {| name := action_name c; func := action c;
     description := action_description c |}.

(** ** Sample model outputs *)

Definition search_output : string :=
  unlines ["I should search.";
           "Action: Search";
           "Action Input: " ++ chr DQUOTE ++ "capital of France" ++ chr DQUOTE].

(** The quoted action input itself ends in a quoted word. *)
Definition quoted_word : string := "echo " ++ chr DQUOTE ++ "hi" ++ chr DQUOTE.

Definition inner_quotes_output : string :=
  unlines ["Action: Shell";
           "Action Input: " ++ chr DQUOTE ++ quoted_word ++ chr DQUOTE].

Definition final_output : string :=
  unlines ["I know now."; "Final Answer: Paris"].

Definition thought_only_output : string := "I am thinking".

Definition lone_action_input_output : string := "Action Input: foo".

Definition blank_output : string := unlines [""; ""; ""].

Definition loose_final_output : string := "Final AnswerXYZ".

Definition answers_output : string :=
  unlines ["I am thinking"; "Final Answers are hard"].

Definition no_action_output : string :=
  unlines ["I should search."; "Action Input: foo"].

Definition trailing_thought_output : string :=
  unlines ["Action: Search"; "I should search."].

Definition final_answer_tool_output : string :=
  unlines ["Action: Final Answer"; "Action Input: 42"].

Definition bare_final_output : string :=
  unlines ["I know now."; "Final Answer"].

Definition two_line_answer_output : string :=
  unlines ["Final Answer: Paris"; "is the capital of France."].

(** ** Sample tools *)

Definition search_tool : Tool (string -> string) :=
  mkTool "Search" (fun q => "results for " ++ q) "useful for search".

Definition calculator_tool : Tool (string -> string) :=
  mkTool "Calculator" (fun q => q) "useful for math".

(** Sample collaborators: every constructor records its arguments and the
    template lists the catalog and the names. *)
Definition sample_collaborators : Collaborators :=
  {| LLM := unit;
     Callable := string -> string;
     Value := string;
     Prompt := (string * list string)%type;
     Chain := (unit * (string * list string))%type;
     Router := (unit * (string * list string))%type;
     Routing := ((unit * (string * list string))
                 * list (Tool (string -> string))
                 * list (string * string))%type;
     BASE_TEMPLATE_format := fun tools tool_names =>
       Ok ("Tools:" ++ chr LF ++ tools ++ chr LF ++ "Use one of: " ++ tool_names);
     PromptTemplate := fun template input_variables =>
       Ok (template, input_variables);
     LLMChain := fun llm prompt => Ok (llm, prompt);
     ZeroShotRouter := fun llm_chain => Ok llm_chain;
     MRKLChain := fun router tools kwargs => Ok (router, tools, kwargs) |}.

Definition search_chain : ChainConfig (string -> string) :=
  mkChainConfig "Search" (fun q => "results for " ++ q) "useful for search".

(** ** Facts about the runtime primitives *)

Lemma bind_ok {A B : Type} (a : A) (k : A -> result B) : bind (Ok a) k = k a.
Proof. reflexivity. Qed.

Lemma bind_raise {A B : Type} (e : exn) (k : A -> result B) :
  bind (Raise e) k = Raise e.
Proof. reflexivity. Qed.

(** Negative indexing inside the list: [l[-k]] is the element [k] places
    from the end. *)
Lemma getitem_neg {A : Type} (l : list A) (k : nat) (x : A) :
  (1 <= k <= length l)%nat ->
  nth_error l (length l - k) = Some x ->
  getitem l (- Z.of_nat k) = Ok x.
Proof.
  intros Hk Hn. unfold getitem. cbv zeta.
  destruct (Z.ltb_spec (- Z.of_nat k) 0) as [_ | Hge]; [| lia].
  replace (- Z.of_nat k + Z.of_nat (length l))%Z
    with (Z.of_nat (length l - k)) by lia.
  destruct (Z.ltb_spec (Z.of_nat (length l - k)) 0) as [Hlt | _]; [lia |].
  destruct (Z.leb_spec (Z.of_nat (length l)) (Z.of_nat (length l - k)))
    as [Hle | _]; [lia |].
  cbn [orb]. rewrite Nat2Z.id, Hn. reflexivity.
Qed.

(** Negative indexing past the front raises [IndexError]. *)
Lemma getitem_neg_out {A : Type} (l : list A) (k : nat) :
  (length l < k)%nat -> getitem l (- Z.of_nat k) = Raise IndexError.
Proof.
  intros Hk. unfold getitem. cbv zeta.
  destruct (Z.ltb_spec (- Z.of_nat k) 0) as [_ | Hge]; [| lia].
  destruct (Z.ltb_spec (- Z.of_nat k + Z.of_nat (length l)) 0) as [_ | Hge];
    [reflexivity | lia].
Qed.

Lemma getitem_last {A : Type} (pre : list A) (b : A) :
  getitem (pre ++ [b]) (-1) = Ok b.
Proof.
  apply (getitem_neg (pre ++ [b]) 1 b).
  - rewrite length_app. simpl. lia.
  - rewrite length_app. simpl.
    replace (length pre + 1 - 1)%nat with (length pre + 0)%nat by lia.
    rewrite nth_error_app2 by lia.
    replace (length pre + 0 - length pre)%nat with 0%nat by lia.
    reflexivity.
Qed.

Lemma getitem_last2 {A : Type} (pre : list A) (a b : A) :
  getitem (pre ++ [a; b]) (-1) = Ok b.
Proof.
  change (pre ++ [a; b])%list with (pre ++ [a] ++ [b])%list.
  rewrite app_assoc. apply getitem_last.
Qed.

Lemma getitem_prev {A : Type} (pre : list A) (a b : A) :
  getitem (pre ++ [a; b]) (-2) = Ok a.
Proof.
  apply (getitem_neg (pre ++ [a; b]) 2 a).
  - rewrite length_app. simpl. lia.
  - rewrite length_app. simpl.
    replace (length pre + 2 - 2)%nat with (length pre + 0)%nat by lia.
    rewrite nth_error_app2 by lia.
    replace (length pre + 0 - length pre)%nat with 0%nat by lia.
    reflexivity.
Qed.

Lemma startswith_app (p x : string) : startswith (p ++ x) p = true.
Proof.
  unfold startswith. induction p as [| c p IH]; simpl.
  - destruct x; reflexivity.
  - destruct (ascii_dec c c) as [_ | Hne]; [exact IH | congruence].
Qed.

Lemma slice_from_app (p x : string) : slice_from (len p) (p ++ x) = x.
Proof. unfold len. induction p as [| c p IH]; simpl; [reflexivity | exact IH]. Qed.

Lemma mem_chr (c d : ascii) : mem c (chr d) = Ascii.eqb c d.
Proof. simpl. apply orb_false_r. Qed.

(** A trailing character outside [chars] stops [rstrip] at once. *)
Lemma rstrip_app_keep (chars s : string) (d : ascii) :
  mem d chars = false -> rstrip chars (s ++ chr d) = s ++ chr d.
Proof.
  intros Hd. induction s as [| c s IH]; simpl.
  - rewrite Hd. reflexivity.
  - rewrite IH. destruct s; reflexivity.
Qed.

(** A trailing character of [chars] is dropped. *)
Lemma rstrip_app_drop (chars s : string) (d : ascii) :
  mem d chars = true -> rstrip chars (s ++ chr d) = rstrip chars s.
Proof.
  intros Hd. induction s as [| c s IH]; simpl.
  - rewrite Hd. reflexivity.
  - rewrite IH. reflexivity.
Qed.

Lemma strip_app_drop (chars s : string) (d : ascii) :
  mem d chars = true -> strip chars (s ++ chr d) = strip chars s.
Proof.
  intros Hd. unfold strip. induction s as [| c s IH]; simpl.
  - rewrite Hd. reflexivity.
  - destruct (mem c chars); [exact IH |].
    apply (rstrip_app_drop chars (String c s) d Hd).
Qed.

(** One pair of surrounding characters of [chars] disappears together with
    whatever further such characters the inner text carries at its ends. *)
Lemma strip_wrapped (chars s : string) (d : ascii) :
  mem d chars = true -> strip chars (chr d ++ s ++ chr d) = strip chars s.
Proof.
  intros Hd. rewrite <- (strip_app_drop chars s d Hd).
  unfold strip. simpl. rewrite Hd. reflexivity.
Qed.

Lemma lstrip_id (chars s : string) :
  (forall c, first_char s = Some c -> mem c chars = false) ->
  lstrip chars s = s.
Proof.
  destruct s as [| c s]; simpl; intros H; [reflexivity |].
  rewrite (H c eq_refl). reflexivity.
Qed.

Lemma rstrip_id (chars s : string) :
  (forall c, last_char s = Some c -> mem c chars = false) ->
  rstrip chars s = s.
Proof.
  induction s as [| c s IH]; intros H; [reflexivity |].
  destruct s as [| c' s].
  - simpl. rewrite (H c eq_refl). reflexivity.
  - change (rstrip chars (String c (String c' s)))
      with (match rstrip chars (String c' s) with
            | EmptyString => if mem c chars then EmptyString else chr c
            | r => String c r
            end).
    rewrite IH; [reflexivity |].
    intros d Hd. apply H. exact Hd.
Qed.

Lemma strip_id (chars s : string) :
  (forall c, first_char s = Some c -> mem c chars = false) ->
  (forall c, last_char s = Some c -> mem c chars = false) ->
  strip chars s = s.
Proof.
  intros Hf Hl. unfold strip. rewrite (lstrip_id chars s Hf).
  apply rstrip_id. exact Hl.
Qed.

Lemma strip_quote_id (X : string) :
  first_char X <> Some DQUOTE -> last_char X <> Some DQUOTE ->
  strip (chr DQUOTE) X = X.
Proof.
  intros Hf Hl. apply strip_id; intros c Hc; rewrite mem_chr;
    apply Ascii.eqb_neq; congruence.
Qed.

(** Text in one pair of double quotes is left alone by the strip of spaces. *)
Lemma strip_space_quoted (X : string) :
  strip " " (chr DQUOTE ++ X ++ chr DQUOTE) = chr DQUOTE ++ X ++ chr DQUOTE.
Proof.
  unfold strip. simpl.
  apply (rstrip_app_keep " " (String DQUOTE X) DQUOTE). reflexivity.
Qed.

(** ** The parser, path by path *)

Section ParserPaths.
Variable llm_output : string.

(** Line 32 on an empty [ps]: the exception of the first index escapes. *)
Lemma parse_raise_last (e : exn) :
  getitem (nonempty_lines llm_output) (-1) = Raise e -> get_action_and_input llm_output = Raise e.
Proof.
  intros H. unfold get_action_and_input. rewrite H. reflexivity.
Qed.

(** Lines 32-34. *)
Lemma parse_final (b : string) :
  getitem (nonempty_lines llm_output) (-1) = Ok b ->
  startswith b "Final Answer" = true ->
  get_action_and_input llm_output
  = Ok (Finish (slice_from (len FINAL_ANSWER_ACTION) b)).
Proof.
  intros H Hfa. unfold get_action_and_input.
  rewrite H. cbn [bind]. rewrite Hfa. reflexivity.
Qed.

(** Lines 35-39. *)
Lemma parse_no_action_input (b : string) :
  getitem (nonempty_lines llm_output) (-1) = Ok b ->
  startswith b "Final Answer" = false ->
  startswith b "Action Input: " = false ->
  get_action_and_input llm_output = Raise MissingActionInputLine.
Proof.
  intros H Hfa Hai. unfold get_action_and_input.
  rewrite H. cbn [bind]. rewrite Hfa, Hai. reflexivity.
Qed.

(** Line 40 when [ps[-2]] itself raises. *)
Lemma parse_raise_prev (b : string) (e : exn) :
  getitem (nonempty_lines llm_output) (-1) = Ok b ->
  startswith b "Final Answer" = false ->
  startswith b "Action Input: " = true ->
  getitem (nonempty_lines llm_output) (-2) = Raise e ->
  get_action_and_input llm_output = Raise e.
Proof.
  intros H Hfa Hai H2. unfold get_action_and_input.
  rewrite H. cbn [bind]. rewrite Hfa, Hai. cbn [negb].
  rewrite H2. reflexivity.
Qed.

(** Lines 40-44. *)
Lemma parse_no_action (a b : string) :
  getitem (nonempty_lines llm_output) (-1) = Ok b ->
  startswith b "Final Answer" = false ->
  startswith b "Action Input: " = true ->
  getitem (nonempty_lines llm_output) (-2) = Ok a ->
  startswith a "Action: " = false ->
  get_action_and_input llm_output = Raise MissingActionLine.
Proof.
  intros H Hfa Hai H2 Hac. unfold get_action_and_input.
  rewrite H. cbn [bind]. rewrite Hfa, Hai. cbn [negb].
  rewrite H2. cbn [bind]. rewrite Hac. reflexivity.
Qed.

(** Lines 45-47. *)
Lemma parse_action (a b : string) :
  getitem (nonempty_lines llm_output) (-1) = Ok b ->
  startswith b "Final Answer" = false ->
  startswith b "Action Input: " = true ->
  getitem (nonempty_lines llm_output) (-2) = Ok a ->
  startswith a "Action: " = true ->
  get_action_and_input llm_output
  = Ok (Action (slice_from (len "Action: ") a)
          (strip (chr DQUOTE)
             (strip " " (slice_from (len "Action Input: ") b)))).
Proof.
  intros H Hfa Hai H2 Hac. unfold get_action_and_input.
  rewrite H. cbn [bind]. rewrite Hfa, Hai. cbn [negb].
  rewrite H2. cbn [bind]. rewrite Hac. reflexivity.
Qed.
End ParserPaths.

(** The parser reads [ps] through [ps[-1]] and [ps[-2]] only. *)
Lemma parse_depends_on_last_two (s1 s2 : string) :
  getitem (nonempty_lines s1) (-1) = getitem (nonempty_lines s2) (-1) ->
  getitem (nonempty_lines s1) (-2) = getitem (nonempty_lines s2) (-2) ->
  get_action_and_input s1 = get_action_and_input s2.
Proof.
  intros H1 H2. unfold get_action_and_input. rewrite H1, H2. reflexivity.
Qed.

Lemma action_input_not_final (Y : string) :
  startswith ("Action Input: " ++ Y) "Final Answer" = false.
Proof. reflexivity. Qed.

(** With no non-empty line the first index raises. *)
Lemma parse_no_lines (s : string) :
  nonempty_lines s = [] -> get_action_and_input s = Raise IndexError.
Proof.
  intros H. apply parse_raise_last. rewrite H. reflexivity.
Qed.

(** With a single non-empty line that is an action input line, the index of
    the second to last line raises. *)
Lemma parse_lone_action_input (s Y : string) :
  nonempty_lines s = [("Action Input: " ++ Y)%string] ->
  get_action_and_input s = Raise IndexError.
Proof.
  intros H. apply (parse_raise_prev s ("Action Input: " ++ Y)).
  - rewrite H. reflexivity.
  - apply action_input_not_final.
  - apply startswith_app.
  - rewrite H. reflexivity.
Qed.

(** ** The parser's contract *)

(** C1 (as amended): when the last two non-empty lines are [Action: T] and
    [Action Input: Y], the parser returns the action whose tool name is the
    text after the prefix [Action: ], untrimmed, and whose tool input is [Y]
    with leading and trailing spaces stripped and then every leading and
    every trailing double quote stripped (any number of layers, each end on
    its own).  For [Y] equal to [X] in one pair of double quotes the tool
    input is [X] without its own leading and trailing double quotes, hence
    [X] itself when [X] neither begins nor ends with a double quote. *)
Theorem parse_action_directive (llm_output : string) (pre : list string)
    (T Y : string) :
  nonempty_lines llm_output
  = (pre ++ [("Action: " ++ T)%string; ("Action Input: " ++ Y)%string])%list ->
  get_action_and_input llm_output
  = Ok (Action T (strip (chr DQUOTE) (strip " " Y)))
  /\ (forall X : string,
        Y = chr DQUOTE ++ X ++ chr DQUOTE ->
        get_action_and_input llm_output
        = Ok (Action T (strip (chr DQUOTE) X))
        /\ (first_char X <> Some DQUOTE ->
            last_char X <> Some DQUOTE ->
            get_action_and_input llm_output = Ok (Action T X))).
Proof.
  intros Hps.
  assert (Hgen : get_action_and_input llm_output
                 = Ok (Action T (strip (chr DQUOTE) (strip " " Y)))).
  { rewrite (parse_action llm_output ("Action: " ++ T) ("Action Input: " ++ Y)).
    - rewrite !slice_from_app. reflexivity.
    - rewrite Hps. apply getitem_last2.
    - apply action_input_not_final.
    - apply startswith_app.
    - rewrite Hps. apply getitem_prev.
    - apply startswith_app. }
  split; [exact Hgen |].
  intros X HY.
  assert (Hq : get_action_and_input llm_output
               = Ok (Action T (strip (chr DQUOTE) X))).
  { rewrite Hgen, HY, strip_space_quoted.
    rewrite (strip_wrapped (chr DQUOTE) X DQUOTE) by reflexivity.
    reflexivity. }
  split; [exact Hq |].
  intros Hf Hl. rewrite Hq, (strip_quote_id X Hf Hl). reflexivity.
Qed.

Lemma parse_action_directive_witness :
  get_action_and_input search_output
  = Ok (Action "Search" "capital of France").
Proof.
  destruct (parse_action_directive search_output ["I should search."]
              "Search" (chr DQUOTE ++ "capital of France" ++ chr DQUOTE)
              eq_refl) as [_ H].
  destruct (H "capital of France" eq_refl) as [_ H'].
  apply H'; discriminate.
Defined.

(** C1 fails as stated: when [X] itself ends in a double quote the parser
    strips that one too, so the tool input is not [X]. *)
Lemma parse_strips_every_trailing_quote :
  nonempty_lines inner_quotes_output
  = [("Action: " ++ "Shell")%string;
     ("Action Input: " ++ chr DQUOTE ++ quoted_word ++ chr DQUOTE)%string]
  /\ get_action_and_input inner_quotes_output
     = Ok (Action "Shell" ("echo " ++ chr DQUOTE ++ "hi"))
  /\ get_action_and_input inner_quotes_output
     <> Ok (Action "Shell" quoted_word).
Proof.
  split; [reflexivity |]. split; [reflexivity |].
  intros H. vm_compute in H. discriminate H.
Qed.

(** C2: when the last non-empty line is [Final Answer: X], the parser
    returns the finish directive with output [X], whatever lines precede it
    and however many (none included); no check on an action line is
    reached. *)
Theorem parse_final_answer (llm_output : string) (pre : list string)
    (X : string) :
  nonempty_lines llm_output = (pre ++ [("Final Answer: " ++ X)%string])%list ->
  get_action_and_input llm_output = Ok (Finish X).
Proof.
  intros Hps.
  rewrite (parse_final llm_output ("Final Answer: " ++ X)).
  - unfold FINAL_ANSWER_ACTION. rewrite slice_from_app. reflexivity.
  - rewrite Hps. apply getitem_last.
  - reflexivity.
Qed.

Lemma parse_final_answer_witness :
  get_action_and_input final_output = Ok (Finish "Paris").
Proof.
  exact (parse_final_answer final_output ["I know now."] "Paris" eq_refl).
Defined.

(** C3, at a failing input: a single non-empty line that is an action input
    line makes the parser index [ps[-2]] out of range, and what escapes is
    the interpreter's [IndexError], not one of the parser's diagnostics. *)
Theorem parse_lone_action_input_index_error :
  nonempty_lines lone_action_input_output = ["Action Input: foo"]
  /\ get_action_and_input lone_action_input_output = Raise IndexError
  /\ is_MalformedDirective IndexError = false.
Proof. repeat split. Qed.

(** C4 (as amended): when the only non-empty line begins neither with
    [Final Answer] nor with [Action Input: ], parsing fails with the
    diagnostic for a missing action input line. *)
Theorem parse_single_line_fails (llm_output l : string) :
  nonempty_lines llm_output = [l] ->
  startswith l "Final Answer" = false ->
  startswith l "Action Input: " = false ->
  get_action_and_input llm_output = Raise MissingActionInputLine.
Proof.
  intros Hps Hfa Hai.
  apply (parse_no_action_input llm_output l); [| exact Hfa | exact Hai].
  rewrite Hps. reflexivity.
Qed.

Lemma parse_single_line_fails_witness :
  get_action_and_input thought_only_output = Raise MissingActionInputLine.
Proof.
  exact (parse_single_line_fails thought_only_output "I am thinking"
           eq_refl eq_refl eq_refl).
Defined.

(** C4 fails as stated: for a single line that is neither a final answer
    nor an action input the cause reported is the missing action input
    line, not the missing action line. *)
Lemma parse_single_line_cause :
  nonempty_lines thought_only_output = [thought_only_output]
  /\ startswith thought_only_output "Final Answer" = false
  /\ startswith thought_only_output "Action Input: " = false
  /\ get_action_and_input thought_only_output = Raise MissingActionInputLine
  /\ get_action_and_input thought_only_output <> Raise MissingActionLine.
Proof.
  repeat (split; [reflexivity |]).
  intros H. vm_compute in H. discriminate H.
Qed.

(** C5, at failing inputs: with no non-empty line the parser indexes
    [ps[-1]] on an empty list and the interpreter's [IndexError] escapes. *)
Theorem parse_blank_index_error :
  nonempty_lines EmptyString = []
  /\ get_action_and_input EmptyString = Raise IndexError
  /\ nonempty_lines blank_output = []
  /\ get_action_and_input blank_output = Raise IndexError
  /\ is_MalformedDirective IndexError = false.
Proof. repeat split. Qed.

(** C6, at a failing input: a last line that begins with [Final Answer] but
    not with [Final Answer: ], and is longer than [Final Answer], still
    yields a finish directive; its output is the line without its first
    fourteen characters. *)
Theorem parse_loose_final_answer :
  nonempty_lines loose_final_output = [loose_final_output]
  /\ startswith loose_final_output FINAL_ANSWER_ACTION = false
  /\ loose_final_output <> "Final Answer"
  /\ get_action_and_input loose_final_output = Ok (Finish "Z").
Proof.
  split; [reflexivity |]. split; [reflexivity |].
  split; [discriminate | reflexivity].
Qed.

(** C7, at a failing input: after a first line of thought, a last line
    that begins with [Final Answer] but not with [Final Answer: ], and not
    with [Action Input: ], does not fail with the missing action input
    cause: the parser returns a finish directive, the line without its
    first fourteen characters. *)
Theorem parse_loose_final_answer_two_lines :
  nonempty_lines answers_output = ["I am thinking"; "Final Answers are hard"]
  /\ startswith "Final Answers are hard" FINAL_ANSWER_ACTION = false
  /\ startswith "Final Answers are hard" "Action Input: " = false
  /\ get_action_and_input answers_output = Ok (Finish "are hard")
  /\ get_action_and_input answers_output <> Raise MissingActionInputLine.
Proof.
  repeat (split; [reflexivity |]).
  intros H. vm_compute in H. discriminate H.
Qed.

(** X15: with at least two non-empty lines, a last line [Action Input: Y]
    after a line that does not begin with [Action: ] fails with the missing
    action line cause; a last line that begins neither with the twelve
    characters [Final Answer] nor with [Action Input: ] fails with the
    missing action input line cause; and the two causes differ. *)
Theorem parse_failure_causes (llm_output : string) (pre : list string)
    (a b : string) :
  nonempty_lines llm_output = (pre ++ [a; b])%list ->
  (forall Y : string,
      b = "Action Input: " ++ Y ->
      startswith a "Action: " = false ->
      get_action_and_input llm_output = Raise MissingActionLine)
  /\ (startswith b "Final Answer" = false ->
      startswith b "Action Input: " = false ->
      get_action_and_input llm_output = Raise MissingActionInputLine)
  /\ MissingActionLine <> MissingActionInputLine.
Proof.
  intros Hps. split; [| split].
  - intros Y Hb Ha. subst b.
    apply (parse_no_action llm_output a ("Action Input: " ++ Y)).
    + rewrite Hps. apply getitem_last2.
    + apply action_input_not_final.
    + apply startswith_app.
    + rewrite Hps. apply getitem_prev.
    + exact Ha.
  - intros Hfa Hai.
    apply (parse_no_action_input llm_output b); [| exact Hfa | exact Hai].
    rewrite Hps. apply getitem_last2.
  - discriminate.
Qed.

Lemma parse_failure_causes_witness :
  get_action_and_input no_action_output = Raise MissingActionLine
  /\ get_action_and_input trailing_thought_output
     = Raise MissingActionInputLine.
Proof.
  split.
  - exact (proj1 (parse_failure_causes no_action_output []
                    "I should search." "Action Input: foo" eq_refl)
             "foo" eq_refl eq_refl).
  - exact (proj1 (proj2 (parse_failure_causes trailing_thought_output []
                           "Action: Search" "I should search." eq_refl))
             eq_refl eq_refl).
Defined.

(** C9: two outputs whose non-empty lines end in the same two lines, or
    that both consist of the same single non-empty line, parse alike: the
    same directive or the same exception. *)
Theorem parse_last_two_lines_only (s1 s2 : string) :
  (exists (pre1 pre2 : list string) (a b : string),
      nonempty_lines s1 = (pre1 ++ [a; b])%list
      /\ nonempty_lines s2 = (pre2 ++ [a; b])%list)
  \/ (exists a : string, nonempty_lines s1 = [a] /\ nonempty_lines s2 = [a]) ->
  get_action_and_input s1 = get_action_and_input s2.
Proof.
  intros [(pre1 & pre2 & a & b & H1 & H2) | (a & H1 & H2)];
    apply parse_depends_on_last_two; rewrite H1, H2.
  - rewrite !getitem_last2. reflexivity.
  - rewrite !getitem_prev. reflexivity.
  - reflexivity.
  - reflexivity.
Qed.

Lemma parse_last_two_lines_only_witness :
  get_action_and_input search_output
  = get_action_and_input
      (unlines ["Thought one."; ""; "Thought two.";
                "Action: Search";
                "Action Input: " ++ chr DQUOTE ++ "capital of France"
                  ++ chr DQUOTE; ""]).
Proof.
  apply parse_last_two_lines_only. left.
  exists ["I should search."], ["Thought one."; "Thought two."],
    "Action: Search",
    ("Action Input: " ++ chr DQUOTE ++ "capital of France" ++ chr DQUOTE).
  split; reflexivity.
Defined.

(** ** Rendering the tool catalog *)

Lemma append_assoc (a b c : string) : (a ++ b) ++ c = a ++ b ++ c.
Proof. induction a as [| x a IH]; simpl; [reflexivity | rewrite IH; reflexivity]. Qed.

Lemma split_not_nil (sep : ascii) (s : string) : split sep s <> [].
Proof.
  destruct s as [| c s]; simpl; [discriminate |].
  destruct (Ascii.eqb c sep); [discriminate |].
  destruct (split sep s); discriminate.
Qed.

(** Splitting distributes over a separator that sits between two texts. *)
Lemma split_app_sep (sep : ascii) (a b : string) :
  split sep (a ++ String sep b) = (split sep a ++ split sep b)%list.
Proof.
  induction a as [| c a IH]; simpl.
  - rewrite Ascii.eqb_refl. reflexivity.
  - rewrite IH. destruct (Ascii.eqb c sep); [reflexivity |].
    destruct (split sep a) as [| w ws] eqn:E; [| reflexivity].
    exfalso. exact (split_not_nil sep a E).
Qed.

Lemma split_join (sep : ascii) (ls : list string) :
  ls <> [] -> split sep (join (chr sep) ls) = flat_map (split sep) ls.
Proof.
  induction ls as [| x ls IH]; intros Hne; [congruence |].
  destruct ls as [| y ls].
  - simpl. rewrite app_nil_r. reflexivity.
  - change (join (chr sep) (x :: y :: ls))
      with (x ++ String sep (join (chr sep) (y :: ls))).
    rewrite split_app_sep, IH by discriminate. reflexivity.
Qed.

Lemma split_no_sep (sep : ascii) (s : string) :
  mem sep s = false -> split sep s = [s].
Proof.
  induction s as [| c s IH]; simpl; intros H; [reflexivity |].
  apply orb_false_elim in H. destruct H as [Hc Hs].
  rewrite Ascii.eqb_sym, Hc, (IH Hs). reflexivity.
Qed.

Lemma flat_map_split_no_sep (sep : ascii) (ls : list string) :
  Forall (fun l => mem sep l = false) ls -> flat_map (split sep) ls = ls.
Proof.
  induction 1 as [| l ls Hl _ IH]; simpl; [reflexivity |].
  rewrite (split_no_sep sep l Hl), IH. reflexivity.
Qed.

Section Rendering.
Context {F : Type}.
Implicit Types tools : list (Tool F).

Lemma tool_strings_renderCatalog tools :
  tool_strings tools = renderCatalog tools.
Proof.
  unfold tool_strings. induction tools as [| t rest IH]; [reflexivity |].
  destruct rest as [| t' rest]; [reflexivity |].
  change (renderCatalog (t :: t' :: rest))
    with (name t ++ ": " ++ description t ++ chr LF
            ++ renderCatalog (t' :: rest)).
  rewrite <- IH. unfold tool_line.
  change (join (chr LF) (map (fun tool => name tool ++ ": " ++ description tool)
                           (t :: t' :: rest)))
    with ((name t ++ ": " ++ description t) ++ chr LF
            ++ join (chr LF)
                 (map (fun tool => name tool ++ ": " ++ description tool)
                    (t' :: rest))).
  rewrite !append_assoc. reflexivity.
Qed.

Lemma tool_names_renderNames tools : tool_names tools = renderNames tools.
Proof.
  unfold tool_names. induction tools as [| t rest IH]; [reflexivity |].
  destruct rest as [| t' rest]; [reflexivity |].
  change (renderNames (t :: t' :: rest))
    with (name t ++ ", " ++ renderNames (t' :: rest)).
  rewrite <- IH. reflexivity.
Qed.

(** The lines of the rendered catalog, tool by tool. *)
Lemma tool_strings_lines tools :
  tools <> [] ->
  split LF (tool_strings tools) = flat_map (split LF) (map tool_line tools).
Proof.
  intros Hne. unfold tool_strings. apply split_join.
  destruct tools; [congruence | discriminate].
Qed.

Lemma tool_strings_permutation tools tools' :
  Permutation tools tools' ->
  Permutation (split LF (tool_strings tools))
    (split LF (tool_strings tools')).
Proof.
  intros HP. destruct tools as [| t rest].
  - apply Permutation_nil in HP. subst tools'. reflexivity.
  - assert (Hne' : tools' <> []).
    { intros ->. apply Permutation_sym, Permutation_nil in HP.
      discriminate HP. }
    rewrite !tool_strings_lines by (discriminate || assumption).
    apply Permutation_flat_map, Permutation_map, HP.
Qed.

(** C8: the catalog is the [name: description] lines joined by newlines
    and the names are joined by a comma and a space, both in the order of
    the tool list; both are functions of the list alone; when no line
    holds a newline the lines of the catalog are the tools' lines, one
    after the other; and for a permuted list the catalog's lines and the
    names are a permutation of the original ones. *)
Theorem catalog_rendering tools :
  (tool_strings tools = renderCatalog tools
   /\ tool_names tools = renderNames tools)
  /\ (forall tools', tools' = tools ->
        tool_strings tools' = tool_strings tools
        /\ tool_names tools' = tool_names tools)
  /\ (tools <> [] ->
      Forall (fun t => mem LF (tool_line t) = false) tools ->
      split LF (tool_strings tools) = map tool_line tools)
  /\ (forall tools', Permutation tools tools' ->
        Permutation (split LF (tool_strings tools))
          (split LF (tool_strings tools'))
        /\ tool_names tools' = join ", " (map name tools')
        /\ Permutation (map name tools) (map name tools')).
Proof.
  split; [| split; [| split]].
  - split; [apply tool_strings_renderCatalog | apply tool_names_renderNames].
  - intros tools' ->. split; reflexivity.
  - intros Hne Hall. rewrite (tool_strings_lines tools Hne).
    apply flat_map_split_no_sep. apply Forall_map. exact Hall.
  - intros tools' HP. split; [| split].
    + apply tool_strings_permutation, HP.
    + reflexivity.
    + apply Permutation_map, HP.
Qed.
End Rendering.

Lemma catalog_rendering_witness :
  tool_strings [search_tool; calculator_tool]
  = "Search: useful for search" ++ chr LF ++ "Calculator: useful for math"
  /\ tool_names [search_tool; calculator_tool] = "Search, Calculator"
  /\ split LF (tool_strings [search_tool; calculator_tool])
     = ["Search: useful for search"; "Calculator: useful for math"]
  /\ Permutation (split LF (tool_strings [search_tool; calculator_tool]))
       (split LF (tool_strings [calculator_tool; search_tool])).
Proof.
  destruct (catalog_rendering [search_tool; calculator_tool])
    as [[Hc Hn] [_ [Hl Hp]]].
  split; [rewrite Hc; reflexivity |].
  split; [rewrite Hn; reflexivity |].
  split.
  - rewrite Hl.
    + reflexivity.
    + discriminate.
    + repeat constructor.
  - apply (Hp [calculator_tool; search_tool]). apply perm_swap.
Defined.

(** ** The chain constructors *)

Lemma keyword_clash_true {V : Type} (bound : list string)
    (kwargs : list (string * V)) (k : string) (v : V) :
  In (k, v) kwargs -> In k bound -> keyword_clash bound kwargs = true.
Proof.
  intros Hkv Hk. unfold keyword_clash. apply existsb_exists.
  exists (k, v). split; [exact Hkv |].
  apply existsb_exists. exists k. split; [exact Hk |].
  apply String.eqb_refl.
Qed.


Section Constructors.
Context `{Collaborators}.

Lemma map_tool_of_chain (chains : list (ChainConfig Callable)) :
  map (fun c => mkTool (action_name c) (action c) (action_description c))
    chains
  = map tool_of_chain chains.
Proof. reflexivity. Qed.

(** The prompt pieces that [from_chains] hands to the router are the
    names and descriptions of the chain configurations, in order. *)
Lemma tool_strings_of_chains (chains : list (ChainConfig Callable)) :
  tool_strings (map tool_of_chain chains)
  = join (chr LF)
      (map (fun c => action_name c ++ ": " ++ action_description c) chains)
  /\ tool_names (map tool_of_chain chains)
     = join ", " (map action_name chains).
Proof.
  unfold tool_strings, tool_names. rewrite !map_map. split; reflexivity.
Qed.

(** A keyword [chains] cannot be bound next to the parameter [chains]. *)
Lemma from_chains_chains_keyword (llm : LLM)
    (chains : list (ChainConfig Callable))
    (kwargs : list (string * Value)) (v : Value) :
  In ("chains", v) kwargs -> from_chains llm chains kwargs = Raise TypeError.
Proof.
  intros Hkv. unfold from_chains.
  rewrite (keyword_clash_true _ kwargs "chains" v Hkv); [reflexivity |].
  right. right. left. reflexivity.
Qed.

End Constructors.



(** ** More on the runtime primitives *)

Lemma list_rev_cases {A : Type} (l : list A) :
  l = [] \/ exists (pre : list A) (b : A), l = (pre ++ [b])%list.
Proof.
  induction l as [| b pre _] using rev_ind; [left; reflexivity |].
  right. exists pre, b. reflexivity.
Qed.

(** A string that starts with [p] is [p] followed by its slice. *)
Lemma startswith_inv (s p : string) :
  startswith s p = true -> s = p ++ slice_from (len p) s.
Proof.
  unfold startswith, len. revert s.
  induction p as [| c p IH]; intros s H; [reflexivity |].
  destruct s as [| d s]; simpl in H; [discriminate |].
  destruct (ascii_dec c d) as [-> | _]; [| discriminate].
  simpl. rewrite <- (IH s H). reflexivity.
Qed.

Lemma getitem_In {A : Type} (l : list A) (i : Z) (x : A) :
  getitem l i = Ok x -> In x l.
Proof.
  unfold getitem. cbv zeta.
  destruct (_ || _)%bool; [discriminate |].
  destruct (nth_error l _) as [y |] eqn:E; [| discriminate].
  intros [= <-]. exact (nth_error_In l _ E).
Qed.

Lemma mem_app (c : ascii) (a b : string) :
  mem c (a ++ b) = mem c a || mem c b.
Proof.
  induction a as [| d a IH]; simpl; [reflexivity |].
  rewrite IH, orb_assoc. reflexivity.
Qed.

(** No piece of a split holds the separator. *)
Lemma split_pieces (sep : ascii) (s : string) :
  Forall (fun p => mem sep p = false) (split sep s).
Proof.
  induction s as [| c s IH]; simpl.
  - repeat constructor.
  - destruct (Ascii.eqb c sep) eqn:E.
    + constructor; [reflexivity | exact IH].
    + destruct (split sep s) as [| w ws]; [repeat constructor; simpl |].
      * rewrite Ascii.eqb_sym, E. reflexivity.
      * inversion IH as [| ? ? Hw Hws]; subst.
        constructor; [| exact Hws].
        simpl. rewrite Ascii.eqb_sym, E, Hw. reflexivity.
Qed.

Lemma slice_from_mem (c : ascii) (n : nat) (s : string) :
  mem c s = false -> mem c (slice_from n s) = false.
Proof.
  revert s. induction n as [| n IH]; intros s H; [exact H |].
  destruct s as [| d s]; [reflexivity |].
  simpl in *. apply orb_false_elim in H. apply IH, H.
Qed.

Lemma lstrip_mem (c : ascii) (chars s : string) :
  mem c s = false -> mem c (lstrip chars s) = false.
Proof.
  induction s as [| d s IH]; intros H; [reflexivity |].
  simpl. destruct (mem d chars); [| exact H].
  simpl in H. apply orb_false_elim in H. apply IH, H.
Qed.

Lemma rstrip_mem (c : ascii) (chars s : string) :
  mem c s = false -> mem c (rstrip chars s) = false.
Proof.
  induction s as [| d s IH]; intros H; [reflexivity |].
  simpl in H. apply orb_false_elim in H. destruct H as [Hd Hs].
  specialize (IH Hs). simpl.
  destruct (rstrip chars s) as [| e r].
  - destruct (mem d chars); [reflexivity |].
    simpl. rewrite Hd. reflexivity.
  - change (mem c (String d (String e r)))
      with (Ascii.eqb c d || mem c (String e r)).
    rewrite Hd, IH. reflexivity.
Qed.

Lemma strip_mem (c : ascii) (chars s : string) :
  mem c s = false -> mem c (strip chars s) = false.
Proof. intros H. apply rstrip_mem, lstrip_mem, H. Qed.

(** What [lstrip] leaves does not begin with a stripped character. *)
Lemma lstrip_first (chars s : string) (c : ascii) :
  first_char (lstrip chars s) = Some c -> mem c chars = false.
Proof.
  induction s as [| d s IH]; simpl; [discriminate |].
  destruct (mem d chars) eqn:E; [exact IH |].
  simpl. intros [= <-]. exact E.
Qed.

(** [rstrip] keeps the first character or leaves nothing. *)
Lemma rstrip_first (chars s : string) (c : ascii) :
  first_char (rstrip chars s) = Some c -> first_char s = Some c.
Proof.
  destruct s as [| d s]; simpl; [discriminate |].
  destruct (rstrip chars s).
  - destruct (mem d chars); simpl; [discriminate | trivial].
  - trivial.
Qed.

(** What [rstrip] leaves does not end with a stripped character. *)
Lemma rstrip_last (chars s : string) (c : ascii) :
  last_char (rstrip chars s) = Some c -> mem c chars = false.
Proof.
  induction s as [| d s IH]; simpl; [discriminate |].
  destruct (rstrip chars s) as [| e r].
  - destruct (mem d chars) eqn:E; simpl; [discriminate |].
    intros [= <-]. exact E.
  - exact IH.
Qed.

Lemma strip_ends (chars s : string) :
  (forall c, first_char (strip chars s) = Some c -> mem c chars = false)
  /\ (forall c, last_char (strip chars s) = Some c -> mem c chars = false).
Proof.
  unfold strip. split; intros c Hc.
  - apply (lstrip_first chars s c).
    apply (rstrip_first chars (lstrip chars s) c), Hc.
  - apply (rstrip_last chars (lstrip chars s) c), Hc.
Qed.

Lemma strip_idempotent (chars s : string) :
  strip chars (strip chars s) = strip chars s.
Proof. apply strip_id; apply strip_ends. Qed.

(** The non-empty lines of two texts with a newline between them. *)
Lemma nonempty_lines_app (a b : string) :
  nonempty_lines (a ++ String LF b)
  = (nonempty_lines a ++ nonempty_lines b)%list.
Proof.
  unfold nonempty_lines. rewrite split_app_sep, filter_app. reflexivity.
Qed.

Lemma nonempty_lines_single (l : string) :
  mem LF l = false -> truthy l = true -> nonempty_lines l = [l].
Proof.
  intros Hl Ht. unfold nonempty_lines. rewrite (split_no_sep LF l Hl).
  simpl. rewrite Ht. reflexivity.
Qed.

(** Every non-empty line is non-empty and holds no newline. *)
Lemma nonempty_lines_shape (s p : string) :
  In p (nonempty_lines s) -> truthy p = true /\ mem LF p = false.
Proof.
  unfold nonempty_lines. intros H. apply filter_In in H.
  destruct H as [Hin Ht]. split; [exact Ht |].
  pose proof (split_pieces LF s) as HF. rewrite Forall_forall in HF.
  exact (HF p Hin).
Qed.

(** ** The parser, case by case *)

Lemma parse_lines_only (s1 s2 : string) :
  nonempty_lines s1 = nonempty_lines s2 ->
  get_action_and_input s1 = get_action_and_input s2.
Proof.
  intros H. apply parse_depends_on_last_two; rewrite H; reflexivity.
Qed.

(** The six ways through the parser, by the shape of the non-empty lines. *)
Lemma parse_cases (s : string) :
  (nonempty_lines s = [] /\ get_action_and_input s = Raise IndexError)
  \/ (exists (pre : list string) (b : string),
         nonempty_lines s = (pre ++ [b])%list
         /\ startswith b "Final Answer" = true
         /\ get_action_and_input s
            = Ok (Finish (slice_from (len FINAL_ANSWER_ACTION) b)))
  \/ (exists (pre : list string) (b : string),
         nonempty_lines s = (pre ++ [b])%list
         /\ startswith b "Final Answer" = false
         /\ startswith b "Action Input: " = false
         /\ get_action_and_input s = Raise MissingActionInputLine)
  \/ (exists Y : string,
         nonempty_lines s = [("Action Input: " ++ Y)%string]
         /\ get_action_and_input s = Raise IndexError)
  \/ (exists (pre : list string) (a Y : string),
         nonempty_lines s = (pre ++ [a; ("Action Input: " ++ Y)%string])%list
         /\ startswith a "Action: " = false
         /\ get_action_and_input s = Raise MissingActionLine)
  \/ (exists (pre : list string) (T Y : string),
         nonempty_lines s
         = (pre ++ [("Action: " ++ T)%string;
                    ("Action Input: " ++ Y)%string])%list
         /\ get_action_and_input s
            = Ok (Action T (strip (chr DQUOTE) (strip " " Y)))).
Proof.
  destruct (list_rev_cases (nonempty_lines s)) as [E | (pre & b & E)].
  { left. split; [exact E | apply parse_no_lines, E]. }
  right.
  assert (Hb : getitem (nonempty_lines s) (-1) = Ok b)
    by (rewrite E; apply getitem_last).
  destruct (startswith b "Final Answer") eqn:Hfa.
  { left. exists pre, b. split; [exact E |]. split; [exact Hfa |].
    apply parse_final; assumption. }
  right.
  destruct (startswith b "Action Input: ") eqn:Hai.
  2:{ left. exists pre, b. split; [exact E |]. split; [exact Hfa |].
      split; [exact Hai |]. apply (parse_no_action_input s b); assumption. }
  right.
  pose proof (startswith_inv b "Action Input: " Hai) as Hbeq.
  remember (slice_from (len "Action Input: ") b) as Y eqn:HY. clear HY.
  subst b.
  destruct (list_rev_cases pre) as [-> | (pre' & a & ->)].
  { left. exists Y. split; [exact E |].
    apply (parse_lone_action_input s Y), E. }
  right. rewrite <- app_assoc in E. simpl in E.
  assert (Ha : getitem (nonempty_lines s) (-2) = Ok a)
    by (rewrite E; apply getitem_prev).
  destruct (startswith a "Action: ") eqn:Hac.
  - right. pose proof (startswith_inv a "Action: " Hac) as Haeq.
    remember (slice_from (len "Action: ") a) as T eqn:HT. clear HT.
    subst a. exists pre', T, Y. split; [exact E |].
    rewrite (parse_action s ("Action: " ++ T) ("Action Input: " ++ Y))
      by assumption.
    rewrite !slice_from_app. reflexivity.
  - left. exists pre', a, Y. split; [exact E |]. split; [exact Hac |].
    apply (parse_no_action s a ("Action Input: " ++ Y)); assumption.
Qed.

(** ** What the parser returns and when it fails *)

(** X1: the interpreter's [IndexError] escapes from the parser exactly when
    there is no non-empty line, or when the only non-empty line begins with
    [Action Input: ]. *)
Theorem parse_index_error_iff (s : string) :
  get_action_and_input s = Raise IndexError
  <-> (nonempty_lines s = []
       \/ exists Y : string,
            nonempty_lines s = [("Action Input: " ++ Y)%string]).
Proof.
  split.
  - intros H.
    destruct (parse_cases s)
      as [[E _] | [(pre & b & _ & _ & R) | [(pre & b & _ & _ & _ & R)
         | [(Y & E & _) | [(pre & a & Y & _ & _ & R)
         | (pre & T & Y & _ & R)]]]]];
      try (rewrite R in H; discriminate H).
    + left. exact E.
    + right. exists Y. exact E.
  - intros [E | (Y & E)].
    + apply parse_no_lines, E.
    + apply (parse_lone_action_input s Y), E.
Qed.

(** X2: whenever the parser returns a pair, either the last non-empty line
    begins with [Final Answer], the first component is [Final Answer] and
    the second is that line without its first fourteen characters; or the
    last two non-empty lines are [Action: ] followed by the first component
    and [Action Input: ] followed by a text whose strip of spaces and then
    of double quotes is the second component. *)
Theorem parse_sound (s a i : string) :
  get_action_and_input s = Ok (a, i) ->
  (exists (pre : list string) (b : string),
      nonempty_lines s = (pre ++ [b])%list
      /\ startswith b "Final Answer" = true
      /\ a = "Final Answer"
      /\ i = slice_from (len FINAL_ANSWER_ACTION) b)
  \/ (exists (pre : list string) (Y : string),
         nonempty_lines s
         = (pre ++ [("Action: " ++ a)%string;
                    ("Action Input: " ++ Y)%string])%list
         /\ i = strip (chr DQUOTE) (strip " " Y)).
Proof.
  intros H.
  destruct (parse_cases s)
    as [[_ R] | [(pre & b & E & Hfa & R) | [(pre & b & _ & _ & _ & R)
       | [(Y & _ & R) | [(pre & a' & Y & _ & _ & R)
       | (pre & T & Y & E & R)]]]]];
    rewrite R in H; try discriminate H.
  - left. exists pre, b. unfold Finish in H. inversion H; subst.
    repeat split; assumption || reflexivity.
  - right. exists pre, Y. unfold Action in H. inversion H; subst.
    split; [exact E | reflexivity].
Qed.

Lemma parse_sound_witness :
  (exists (pre : list string) (b : string),
      nonempty_lines search_output = (pre ++ [b])%list
      /\ startswith b "Final Answer" = true
      /\ "Search" = "Final Answer"
      /\ "capital of France" = slice_from (len FINAL_ANSWER_ACTION) b)
  \/ (exists (pre : list string) (Y : string),
         nonempty_lines search_output
         = (pre ++ [("Action: " ++ "Search")%string;
                    ("Action Input: " ++ Y)%string])%list
         /\ "capital of France" = strip (chr DQUOTE) (strip " " Y)).
Proof.
  exact (parse_sound search_output "Search" "capital of France" eq_refl).
Defined.

(** X3: the parser raises nothing but the [IndexError] of X1 and its two
    [ValueError]s: the one for a missing action input exactly on a last
    line that begins neither with [Final Answer] nor with [Action Input: ],
    the one for a missing action exactly on a last line [Action Input: ...]
    that follows a line not beginning with [Action: ]. *)
Theorem parse_failures (s : string) (e : exn) :
  get_action_and_input s = Raise e ->
  (e = IndexError
   /\ (nonempty_lines s = []
       \/ exists Y : string,
            nonempty_lines s = [("Action Input: " ++ Y)%string]))
  \/ (e = MissingActionInputLine
      /\ exists (pre : list string) (b : string),
           nonempty_lines s = (pre ++ [b])%list
           /\ startswith b "Final Answer" = false
           /\ startswith b "Action Input: " = false)
  \/ (e = MissingActionLine
      /\ exists (pre : list string) (a Y : string),
           nonempty_lines s
           = (pre ++ [a; ("Action Input: " ++ Y)%string])%list
           /\ startswith a "Action: " = false).
Proof.
  intros H.
  destruct (parse_cases s)
    as [[E R] | [(pre & b & _ & _ & R) | [(pre & b & E & Hfa & Hai & R)
       | [(Y & E & R) | [(pre & a & Y & E & Hac & R)
       | (pre & T & Y & _ & R)]]]]];
    rewrite R in H; try discriminate H; inversion H; subst.
  - left. split; [reflexivity | left; exact E].
  - right; left. split; [reflexivity |]. exists pre, b. repeat split; assumption.
  - left. split; [reflexivity | right; exists Y; exact E].
  - right; right. split; [reflexivity |]. exists pre, a, Y.
    split; assumption.
Qed.

Lemma parse_failures_witness :
  (MissingActionLine = IndexError
   /\ (nonempty_lines no_action_output = []
       \/ exists Y : string,
            nonempty_lines no_action_output
            = [("Action Input: " ++ Y)%string]))
  \/ (MissingActionLine = MissingActionInputLine
      /\ exists (pre : list string) (b : string),
           nonempty_lines no_action_output = (pre ++ [b])%list
           /\ startswith b "Final Answer" = false
           /\ startswith b "Action Input: " = false)
  \/ (MissingActionLine = MissingActionLine
      /\ exists (pre : list string) (a Y : string),
           nonempty_lines no_action_output
           = (pre ++ [a; ("Action Input: " ++ Y)%string])%list
           /\ startswith a "Action: " = false).
Proof.
  exact (parse_failures no_action_output MissingActionLine eq_refl).
Defined.

(** X4: neither component of a returned pair holds a newline. *)
Theorem parse_result_single_line (s a i : string) :
  get_action_and_input s = Ok (a, i) ->
  mem LF a = false /\ mem LF i = false.
Proof.
  intros H. destruct (parse_sound s a i H)
    as [(pre & b & E & _ & -> & ->) | (pre & Y & E & ->)].
  - split; [reflexivity |]. apply slice_from_mem.
    apply (nonempty_lines_shape s b). rewrite E.
    apply in_or_app. right. left. reflexivity.
  - assert (Ha : mem LF ("Action: " ++ a) = false).
    { apply (nonempty_lines_shape s). rewrite E.
      apply in_or_app. right. left. reflexivity. }
    assert (HY : mem LF ("Action Input: " ++ Y) = false).
    { apply (nonempty_lines_shape s). rewrite E.
      apply in_or_app. right. right. left. reflexivity. }
    rewrite mem_app in Ha, HY.
    apply orb_false_elim in Ha. apply orb_false_elim in HY.
    split; [apply Ha |]. apply strip_mem, strip_mem, HY.
Qed.

Lemma parse_result_single_line_witness :
  mem LF "Search" = false /\ mem LF "capital of France" = false.
Proof.
  exact (parse_result_single_line search_output "Search"
           "capital of France" eq_refl).
Defined.

(** X5: when the first component returned is not [Final Answer], the
    second neither begins nor ends with a double quote, and stripping
    double quotes from it again changes nothing. *)
Theorem parse_tool_input_unquoted (s a i : string) :
  get_action_and_input s = Ok (a, i) ->
  a <> "Final Answer" ->
  first_char i <> Some DQUOTE
  /\ last_char i <> Some DQUOTE
  /\ strip (chr DQUOTE) i = i.
Proof.
  intros H Ha. destruct (parse_sound s a i H)
    as [(pre & b & _ & _ & Hfa & _) | (pre & Y & _ & ->)];
    [contradiction |].
  destruct (strip_ends (chr DQUOTE) (strip " " Y)) as [Hf Hl].
  split; [| split].
  - intros Hc. specialize (Hf DQUOTE Hc). discriminate Hf.
  - intros Hc. specialize (Hl DQUOTE Hc). discriminate Hl.
  - apply strip_idempotent.
Qed.

Lemma parse_tool_input_unquoted_witness :
  first_char ("echo " ++ chr DQUOTE ++ "hi") <> Some DQUOTE
  /\ last_char ("echo " ++ chr DQUOTE ++ "hi") <> Some DQUOTE
  /\ strip (chr DQUOTE) ("echo " ++ chr DQUOTE ++ "hi")
     = "echo " ++ chr DQUOTE ++ "hi".
Proof.
  apply (parse_tool_input_unquoted inner_quotes_output "Shell"
           ("echo " ++ chr DQUOTE ++ "hi") eq_refl).
  discriminate.
Defined.

(** X6: empty lines do not matter: a doubled newline parses like a single
    one, and a newline at the very end or at the very start changes
    nothing. *)
Theorem parse_ignores_blank_lines (a b : string) :
  get_action_and_input (a ++ chr LF ++ chr LF ++ b)
  = get_action_and_input (a ++ chr LF ++ b)
  /\ get_action_and_input (a ++ chr LF) = get_action_and_input a
  /\ get_action_and_input (chr LF ++ a) = get_action_and_input a.
Proof.
  split; [| split]; apply parse_lines_only.
  - change (a ++ chr LF ++ chr LF ++ b) with (a ++ String LF (String LF b)).
    change (a ++ chr LF ++ b) with (a ++ String LF b).
    rewrite !nonempty_lines_app.
    change (String LF b) with (EmptyString ++ String LF b).
    rewrite nonempty_lines_app. reflexivity.
  - change (a ++ chr LF) with (a ++ String LF EmptyString).
    rewrite nonempty_lines_app. apply app_nil_r.
  - change (chr LF ++ a) with (EmptyString ++ String LF a).
    rewrite nonempty_lines_app. reflexivity.
Qed.

(** ** Raw texts in and directives out *)

Lemma parse_action_lines (s : string) (pre : list string) (T Y : string) :
  nonempty_lines s
  = (pre ++ [("Action: " ++ T)%string; ("Action Input: " ++ Y)%string])%list ->
  get_action_and_input s = Ok (Action T (strip (chr DQUOTE) (strip " " Y))).
Proof.
  intros E.
  rewrite (parse_action s ("Action: " ++ T) ("Action Input: " ++ Y)).
  - rewrite !slice_from_app. reflexivity.
  - rewrite E. apply getitem_last2.
  - apply action_input_not_final.
  - apply startswith_app.
  - rewrite E. apply getitem_prev.
  - apply startswith_app.
Qed.

Lemma parse_final_lines (s : string) (pre : list string) (b : string) :
  nonempty_lines s = (pre ++ [b])%list ->
  startswith b "Final Answer" = true ->
  get_action_and_input s
  = Ok (Finish (slice_from (len FINAL_ANSWER_ACTION) b)).
Proof.
  intros E Hfa. apply parse_final; [| exact Hfa].
  rewrite E. apply getitem_last.
Qed.

Lemma nonempty_lines_action_pair (T Y : string) :
  mem LF T = false -> mem LF Y = false ->
  nonempty_lines ("Action: " ++ T ++ chr LF ++ "Action Input: " ++ Y)
  = [("Action: " ++ T)%string; ("Action Input: " ++ Y)%string].
Proof.
  intros HT HY.
  change ("Action: " ++ T ++ chr LF ++ "Action Input: " ++ Y)
    with (("Action: " ++ T) ++ String LF ("Action Input: " ++ Y)).
  rewrite nonempty_lines_app.
  rewrite (nonempty_lines_single ("Action: " ++ T));
    [| rewrite mem_app, HT; reflexivity | reflexivity].
  rewrite (nonempty_lines_single ("Action Input: " ++ Y));
    [| rewrite mem_app, HY; reflexivity | reflexivity].
  reflexivity.
Qed.

Lemma strip_space_id (X : string) :
  first_char X <> Some " "%char -> last_char X <> Some " "%char ->
  strip " " X = X.
Proof.
  intros Hf Hl. apply strip_id; intros c Hc;
    change (mem c " ") with (mem c (chr " "%char)); rewrite mem_chr;
    apply Ascii.eqb_neq; congruence.
Qed.

(** X7: an action written out as text parses back.  For a tool name [T]
    and an input [X] without newlines, [X] neither beginning nor ending
    with a double quote: the text [Action: T], newline,
    [Action Input: ] and [X] in double quotes, alone or after any thoughts
    and a newline, parses to the pair of [T] and [X]; the same holds for
    [X] written without the quotes when it neither begins nor ends with a
    space. *)
Theorem parse_rendered_action (thoughts T X : string) :
  mem LF T = false ->
  mem LF X = false ->
  first_char X <> Some DQUOTE ->
  last_char X <> Some DQUOTE ->
  get_action_and_input
    ("Action: " ++ T ++ chr LF
       ++ "Action Input: " ++ chr DQUOTE ++ X ++ chr DQUOTE)
  = Ok (Action T X)
  /\ get_action_and_input
       (thoughts ++ chr LF ++ "Action: " ++ T ++ chr LF
          ++ "Action Input: " ++ chr DQUOTE ++ X ++ chr DQUOTE)
     = Ok (Action T X)
  /\ (first_char X <> Some " "%char ->
      last_char X <> Some " "%char ->
      get_action_and_input
        (thoughts ++ chr LF ++ "Action: " ++ T ++ chr LF
           ++ "Action Input: " ++ X)
      = Ok (Action T X)).
Proof.
  intros HT HX Hf Hl.
  assert (HQ : mem LF (chr DQUOTE ++ X ++ chr DQUOTE) = false).
  { rewrite !mem_app, HX. reflexivity. }
  assert (HS : strip (chr DQUOTE) (strip " " (chr DQUOTE ++ X ++ chr DQUOTE))
               = X).
  { rewrite strip_space_quoted.
    rewrite (strip_wrapped (chr DQUOTE) X DQUOTE) by reflexivity.
    apply strip_quote_id; assumption. }
  split; [| split].
  - rewrite (parse_action_lines _ [] T (chr DQUOTE ++ X ++ chr DQUOTE)).
    + rewrite HS. reflexivity.
    + apply (nonempty_lines_action_pair T _ HT HQ).
  - change (thoughts ++ chr LF ++ "Action: " ++ T ++ chr LF
              ++ "Action Input: " ++ chr DQUOTE ++ X ++ chr DQUOTE)
      with (thoughts
              ++ String LF ("Action: " ++ T ++ chr LF ++ "Action Input: "
                              ++ chr DQUOTE ++ X ++ chr DQUOTE)).
    rewrite (parse_action_lines _ (nonempty_lines thoughts) T
               (chr DQUOTE ++ X ++ chr DQUOTE)).
    + rewrite HS. reflexivity.
    + rewrite nonempty_lines_app.
      rewrite (nonempty_lines_action_pair T _ HT HQ). reflexivity.
  - intros Hsf Hsl.
    change (thoughts ++ chr LF ++ "Action: " ++ T ++ chr LF
              ++ "Action Input: " ++ X)
      with (thoughts
              ++ String LF ("Action: " ++ T ++ chr LF ++ "Action Input: "
                              ++ X)).
    rewrite (parse_action_lines _ (nonempty_lines thoughts) T X).
    + rewrite (strip_space_id X Hsf Hsl), (strip_quote_id X Hf Hl).
      reflexivity.
    + rewrite nonempty_lines_app.
      rewrite (nonempty_lines_action_pair T X HT HX). reflexivity.
Qed.

Lemma parse_rendered_action_witness :
  get_action_and_input search_output
  = Ok (Action "Search" "capital of France").
Proof.
  apply (parse_rendered_action "I should search." "Search"
           "capital of France"); reflexivity || discriminate.
Defined.

(** X8: a final answer written out as text parses back.  For an answer
    [X] without a newline, the text [Final Answer: ] followed by [X],
    alone or after any thoughts and a newline, parses to the finish pair
    with output [X]. *)
Theorem parse_rendered_final_answer (thoughts X : string) :
  mem LF X = false ->
  get_action_and_input ("Final Answer: " ++ X) = Ok (Finish X)
  /\ get_action_and_input (thoughts ++ chr LF ++ "Final Answer: " ++ X)
     = Ok (Finish X).
Proof.
  intros HX.
  assert (HL : nonempty_lines ("Final Answer: " ++ X)
               = [("Final Answer: " ++ X)%string]).
  { apply nonempty_lines_single; [| reflexivity].
    rewrite mem_app, HX. reflexivity. }
  split.
  - rewrite (parse_final_lines _ [] ("Final Answer: " ++ X) HL)
      by reflexivity.
    unfold FINAL_ANSWER_ACTION. rewrite slice_from_app. reflexivity.
  - change (thoughts ++ chr LF ++ "Final Answer: " ++ X)
      with (thoughts ++ String LF ("Final Answer: " ++ X)).
    rewrite (parse_final_lines _ (nonempty_lines thoughts)
               ("Final Answer: " ++ X)).
    + unfold FINAL_ANSWER_ACTION. rewrite slice_from_app. reflexivity.
    + rewrite nonempty_lines_app, HL. reflexivity.
    + reflexivity.
Qed.

Lemma parse_rendered_final_answer_witness :
  get_action_and_input ("Final Answer: " ++ "Paris") = Ok (Finish "Paris")
  /\ get_action_and_input final_output = Ok (Finish "Paris").
Proof.
  exact (parse_rendered_final_answer "I know now." "Paris" eq_refl).
Defined.

(** X9: a final answer that runs over two lines is not recognised.  When
    the text after [Final Answer: ...] and a newline is one non-empty line
    that begins neither with [Final Answer] nor with [Action Input: ], the
    parser fails with the missing action input cause, whatever comes
    before. *)
Theorem parse_two_line_final_answer (head X1 X2 : string) :
  mem LF X2 = false ->
  truthy X2 = true ->
  startswith X2 "Final Answer" = false ->
  startswith X2 "Action Input: " = false ->
  get_action_and_input (head ++ "Final Answer: " ++ X1 ++ chr LF ++ X2)
  = Raise MissingActionInputLine.
Proof.
  intros Hm Ht Hfa Hai.
  change (head ++ "Final Answer: " ++ X1 ++ chr LF ++ X2)
    with (head ++ ("Final Answer: " ++ X1) ++ String LF X2).
  rewrite <- append_assoc.
  apply (parse_no_action_input _ X2); [| exact Hfa | exact Hai].
  rewrite nonempty_lines_app, (nonempty_lines_single X2 Hm Ht).
  apply getitem_last.
Qed.

Lemma parse_two_line_final_answer_witness :
  get_action_and_input two_line_answer_output = Raise MissingActionInputLine.
Proof.
  exact (parse_two_line_final_answer EmptyString "Paris"
           "is the capital of France." eq_refl eq_refl eq_refl eq_refl).
Defined.

(** X10: the returned pair does not tell a tool called [Final Answer] from
    a final answer: an output ending in the lines [Action: Final Answer]
    and [Action Input: Y] parses exactly like an output whose last line is
    [Final Answer: ] followed by the stripped [Y]. *)
Theorem parse_final_answer_tool_name (s1 s2 : string)
    (pre1 pre2 : list string) (Y : string) :
  nonempty_lines s1
  = (pre1 ++ ["Action: Final Answer"; ("Action Input: " ++ Y)%string])%list ->
  nonempty_lines s2
  = (pre2 ++ [("Final Answer: " ++ strip (chr DQUOTE) (strip " " Y))%string])
      %list ->
  get_action_and_input s1 = get_action_and_input s2
  /\ get_action_and_input s1 = Ok (Finish (strip (chr DQUOTE) (strip " " Y))).
Proof.
  intros E1 E2.
  rewrite (parse_action_lines s1 pre1 "Final Answer" Y E1).
  rewrite (parse_final_lines s2 pre2 _ E2) by reflexivity.
  unfold FINAL_ANSWER_ACTION. rewrite slice_from_app.
  split; reflexivity.
Qed.

Lemma parse_final_answer_tool_name_witness :
  get_action_and_input final_answer_tool_output
  = get_action_and_input "Final Answer: 42"
  /\ get_action_and_input final_answer_tool_output = Ok (Finish "42").
Proof.
  exact (parse_final_answer_tool_name final_answer_tool_output
           "Final Answer: 42" [] [] "42" eq_refl eq_refl).
Defined.

(** X11: on a last non-empty line that begins with [Final Answer] the two
    characters that follow these twelve are dropped unread: the output is
    the rest of the line after them, and it is empty when fewer than two
    characters follow. *)
Theorem parse_final_answer_drops_two (s : string) (pre : list string)
    (r : string) :
  nonempty_lines s = (pre ++ [("Final Answer" ++ r)%string])%list ->
  get_action_and_input s = Ok (Finish (slice_from 2 r))
  /\ (String.length r <= 2 ->
      get_action_and_input s = Ok (Finish EmptyString)).
Proof.
  intros E.
  assert (H : get_action_and_input s = Ok (Finish (slice_from 2 r))).
  { rewrite (parse_final_lines s pre ("Final Answer" ++ r) E)
      by apply startswith_app.
    reflexivity. }
  split; [exact H |].
  intros Hr. rewrite H.
  destruct r as [| c1 [| c2 [| c3 r]]]; try reflexivity.
  simpl in Hr. lia.
Qed.

Lemma parse_final_answer_drops_two_witness :
  get_action_and_input bare_final_output = Ok (Finish EmptyString).
Proof.
  apply (parse_final_answer_drops_two bare_final_output ["I know now."]
           EmptyString eq_refl).
  simpl. lia.
Defined.

(** ** Keyword arguments and the prompt of the constructors *)

Lemma bind_ok_inv {A B : Type} (m : result A) (k : A -> result B) (b : B) :
  bind m k = Ok b -> exists a : A, m = Ok a /\ k a = Ok b.
Proof.
  destruct m as [a | e]; simpl; intros H; [| discriminate H].
  exists a. split; [reflexivity | exact H].
Qed.

Lemma join_merge (sep a b : string) (l : list string) :
  join sep (a :: b :: l) = join sep ((a ++ sep ++ b) :: l).
Proof.
  destruct l as [| c l]; [reflexivity |].
  change (join sep (a :: b :: c :: l))
    with (a ++ sep ++ b ++ sep ++ join sep (c :: l)).
  change (join sep ((a ++ sep ++ b) :: c :: l))
    with ((a ++ sep ++ b) ++ sep ++ join sep (c :: l)).
  rewrite !append_assoc. reflexivity.
Qed.

(** X12: the renderings do not separate the tools.  Two tools render the
    same names as one tool whose name is the two names with a comma and a
    space between them, and the same catalog as one tool whose description
    runs on, after a newline, with the second tool's line. *)
Theorem rendering_merges_tools {F : Type} (t1 t2 : Tool F)
    (rest : list (Tool F)) (f : F) (d : string) :
  tool_names (t1 :: t2 :: rest)
  = tool_names (mkTool (name t1 ++ ", " ++ name t2) f d :: rest)
  /\ tool_strings (t1 :: t2 :: rest)
     = tool_strings
         (mkTool (name t1) f
            (description t1 ++ chr LF ++ name t2 ++ ": " ++ description t2)
          :: rest).
Proof.
  split.
  - unfold tool_names. simpl map. apply join_merge.
  - unfold tool_strings. simpl map. rewrite join_merge.
    unfold tool_line. simpl name. simpl description.
    rewrite !append_assoc. reflexivity.
Qed.

Section ConstructorFacts.
Context `{Collaborators}.

(** X13: keyword arguments that name a parameter never reach the chain
    class.  With a key [cls], [tools] or [llm] among them both
    constructors raise [TypeError]; with a key [router] neither returns a
    chain. *)
Theorem constructors_reserved_keywords (tools : list (Tool Callable))
    (chains : list (ChainConfig Callable)) (llm : LLM)
    (kwargs : list (string * Value)) (k : string) (v : Value) :
  In (k, v) kwargs ->
  (In k ["cls"; "tools"; "llm"] ->
   from_tools_and_llm tools llm kwargs = Raise TypeError
   /\ from_chains llm chains kwargs = Raise TypeError)
  /\ (k = "router" ->
      forall r : Routing,
        from_tools_and_llm tools llm kwargs <> Ok r
        /\ from_chains llm chains kwargs <> Ok r).
Proof.
  intros Hkv. split.
  - intros Hk.
    assert (Ht : forall ts : list (Tool Callable),
               from_tools_and_llm ts llm kwargs = Raise TypeError).
    { intros ts. unfold from_tools_and_llm.
      rewrite (keyword_clash_true _ kwargs k v Hkv Hk). reflexivity. }
    split; [apply Ht |]. unfold from_chains.
    destruct (keyword_clash ["cls"; "llm"; "chains"] kwargs);
      [reflexivity | apply Ht].
  - intros -> r.
    assert (Hc : keyword_clash ["router"; "tools"] kwargs = true).
    { apply (keyword_clash_true _ kwargs "router" v Hkv). left. reflexivity. }
    assert (Ht : forall ts : list (Tool Callable),
               from_tools_and_llm ts llm kwargs <> Ok r).
    { intros ts. unfold from_tools_and_llm. rewrite Hc.
      destruct (keyword_clash ["cls"; "tools"; "llm"] kwargs);
        [discriminate |].
      destruct (from_llm_and_tools llm ts); simpl; discriminate. }
    split; [apply Ht |]. unfold from_chains.
    destruct (keyword_clash ["cls"; "llm"; "chains"] kwargs);
      [discriminate | apply Ht].
Qed.

(** X14: [from_chains] returns a chain exactly when no keyword argument
    names a parameter of [from_chains], of [from_tools_and_llm] or of the
    call of the chain class, and every step succeeds; the chain is then what
    the chain class builds from the keyword arguments, the tools of the
    configurations in order, and the router of the prompt whose template
    was formatted with the configurations' [name: description] lines
    joined by newlines and their names joined by a comma and a space. *)
Theorem from_chains_succeeds_iff (llm : LLM)
    (chains : list (ChainConfig Callable)) (kwargs : list (string * Value))
    (r : Routing) :
  from_chains llm chains kwargs = Ok r
  <-> (keyword_clash ["cls"; "llm"; "chains"] kwargs = false
       /\ keyword_clash ["cls"; "tools"; "llm"] kwargs = false
       /\ keyword_clash ["router"; "tools"] kwargs = false
       /\ exists (template : string) (prompt : Prompt) (llm_chain : Chain)
                 (router : Router),
            BASE_TEMPLATE_format
              (join (chr LF)
                 (map (fun c => action_name c ++ ": " ++ action_description c)
                    chains))
              (join ", " (map action_name chains))
            = Ok template
            /\ PromptTemplate template ["input"] = Ok prompt
            /\ LLMChain llm prompt = Ok llm_chain
            /\ ZeroShotRouter llm_chain = Ok router
            /\ MRKLChain router (map tool_of_chain chains) kwargs = Ok r).
Proof.
  unfold from_chains. rewrite map_tool_of_chain.
  unfold from_tools_and_llm, from_llm_and_tools. cbv zeta.
  destruct (tool_strings_of_chains chains) as [-> ->].
  split.
  - intros Hr.
    destruct (keyword_clash ["cls"; "llm"; "chains"] kwargs);
      [discriminate Hr |].
    split; [reflexivity |].
    destruct (keyword_clash ["cls"; "tools"; "llm"] kwargs);
      [discriminate Hr |].
    split; [reflexivity |].
    apply bind_ok_inv in Hr. destruct Hr as (router & Hrouter & Hr).
    apply bind_ok_inv in Hrouter. destruct Hrouter as (template & Ht & Hrouter).
    apply bind_ok_inv in Hrouter. destruct Hrouter as (prompt & Hp & Hrouter).
    apply bind_ok_inv in Hrouter. destruct Hrouter as (llm_chain & Hl & Hrouter).
    destruct (keyword_clash ["router"; "tools"] kwargs);
      [discriminate Hr |].
    split; [reflexivity |].
    exists template, prompt, llm_chain, router. repeat split; assumption.
  - intros (Hc0 & Hc1 & Hc2 & template & prompt & llm_chain & router
            & Ht & Hp & Hl & Hz & Hm).
    rewrite Hc0, Hc1, Ht. cbn [bind]. rewrite Hp. cbn [bind].
    rewrite Hl. cbn [bind]. rewrite Hz. cbn [bind].
    rewrite Hc2. exact Hm.
Qed.
End ConstructorFacts.

Lemma constructors_reserved_keywords_witness :
  @from_tools_and_llm sample_collaborators [search_tool] tt
    [("verbose", "yes"); ("tools", "none")]
  = Raise TypeError
  /\ @from_chains sample_collaborators tt [search_chain]
       [("verbose", "yes"); ("tools", "none")]
     = Raise TypeError.
Proof.
  apply (proj1 (@constructors_reserved_keywords sample_collaborators
                  [search_tool] [search_chain] tt
                  [("verbose", "yes"); ("tools", "none")] "tools" "none"
                  (or_intror (or_introl eq_refl)))).
  right. left. reflexivity.
Defined.

Lemma from_chains_succeeds_iff_witness :
  @from_chains sample_collaborators tt [search_chain] [("verbose", "yes")]
  = Ok ((tt, ("Tools:" ++ chr LF ++ "Search: useful for search" ++ chr LF
                ++ "Use one of: Search", ["input"])),
        [tool_of_chain search_chain], [("verbose", "yes")]).
Proof.
  apply (proj2 (@from_chains_succeeds_iff sample_collaborators tt
                  [search_chain] [("verbose", "yes")] _)).
  split; [reflexivity |]. split; [reflexivity |]. split; [reflexivity |].
  eexists _, _, _, _. repeat split; reflexivity.
Defined.
